(** * TranspileAI: the Python test server (python/server.py) and the
      simple_math example module (examples/simple_math/impl.py)

    A shallow embedding of the method registry, the session store and the
    request dispatcher of [TranspileTestServiceImpl], together with the parts
    of the Python runtime the dispatcher leans on: [str] values, the [json]
    encoder and decoder, [uuid.uuid4] and keyword-argument calls.

    Conventions.
    - A Python [str] is the list of its code points ([pystr]).
    - A Python [dict] is the list of its items in insertion order.
    - A handler is a function from the service state and the request to the
      new service state, the reply and the trace of effects (log records and
      calls of registered functions) it performed.
    - What the operating system decides (the random bits behind [uuid4], the
      reading of the performance counter) is an explicit argument.
    - Floating point numbers are kept abstract: the class [FloatModel] names
      the three operations on them that the embedded code can reach. *)

From Stdlib Require Import String Ascii List NArith ZArith Bool Lia.
Import ListNotations.

Set Implicit Arguments.

(** ** Text *)

Definition pystr : Type := list N.

(** An ASCII literal of the source, as a [pystr]. *)
Definition lit (s : string) : pystr :=
  map N_of_ascii (list_ascii_of_string s).

Fixpoint str_eqb (a b : pystr) : bool :=
  match a, b with
  | [], [] => true
  | x :: a', y :: b' => N.eqb x y && str_eqb a' b'
  | _, _ => false
  end.

(** [s.startswith(p)] *)
Fixpoint startswith (s p : pystr) {struct p} : bool :=
  match p, s with
  | [], _ => true
  | y :: p', x :: s' => N.eqb x y && startswith s' p'
  | _ :: _, [] => false
  end.

(** Truth value of a [str]: [if s:] holds for a non-empty string. *)
Definition truthy (s : pystr) : bool :=
  match s with [] => false | _ :: _ => true end.

(** *** Decimal and hexadecimal numerals *)

Definition is_digit (c : N) : bool := (48 <=? c)%N && (c <=? 57)%N.

Fixpoint digits_le (fuel : nat) (n : N) : pystr :=
  match fuel with
  | O => []
  | S k => (48 + n mod 10)%N :: (if (n <? 10)%N then [] else digits_le k (n / 10))
  end.

(** [str(n)] for a natural number. *)
Definition str_of_N (n : N) : pystr :=
  rev (digits_le (S (N.to_nat (N.log2 n))) n).

(** [str(z)], also [int.__repr__]. *)
Definition str_of_Z (z : Z) : pystr :=
  match z with
  | Zneg p => 45%N :: str_of_N (Npos p)
  | _ => str_of_N (Z.to_N z)
  end.

(** Value of a run of decimal digits, most significant first. *)
Definition digits_value (ds : pystr) : N :=
  fold_left (fun a d => (a * 10 + (d - 48))%N) ds 0%N.

Definition hexdigit (d : N) : N := if (d <? 10)%N then (48 + d)%N else (87 + d)%N.

(** ['%04x' % n] for [n < 0x10000]. *)
Definition hex4 (n : N) : pystr :=
  [hexdigit (n / 4096 mod 16); hexdigit (n / 256 mod 16);
   hexdigit (n / 16 mod 16); hexdigit (n mod 16)]%N.

(** [n] lower-case hexadecimal digits of [v], most significant first. *)
Fixpoint hex_le (n : nat) (v : N) : pystr :=
  match n with
  | O => []
  | S k => hexdigit (v mod 16) :: hex_le k (v / 16)
  end.

Definition hex_fixed (n : nat) (v : N) : pystr := rev (hex_le n v).

Definition hexval (c : N) : option N :=
  if (48 <=? c)%N && (c <=? 57)%N then Some (c - 48)%N
  else if (97 <=? c)%N && (c <=? 102)%N then Some (c - 87)%N
  else if (65 <=? c)%N && (c <=? 70)%N then Some (c - 55)%N
  else None.

Definition parse_hex4 (s : pystr) : option (N * pystr) :=
  match s with
  | a :: b :: c :: d :: r =>
      match hexval a, hexval b, hexval c, hexval d with
      | Some x, Some y, Some z, Some w =>
          Some ((x * 4096 + y * 256 + z * 16 + w)%N, r)
      | _, _, _, _ => None
      end
  | _ => None
  end.

(** ** [uuid.uuid4] and [str(UUID)]

    [uuid4()] is [UUID(bytes=os.urandom(16), version=4)]: the 128 random bits
    with the variant set to RFC 4122 and the version nibble set to 4. *)

Definition uuid4 (random : N) : N :=
  let i := N.land random (N.ones 128) in
  let i := N.ldiff i (N.shiftl 0xc000 48) in
  let i := N.lor i (N.shiftl 0x8000 48) in
  let i := N.ldiff i (N.shiftl 0xf000 64) in
  N.lor i (N.shiftl 4 76).

(** [UUID.__str__]: ['%032x' % int] cut as 8-4-4-4-12. *)
Definition uuid_str (i : N) : pystr :=
  let h := hex_fixed 32 i in
  firstn 8 h ++ [45%N] ++ firstn 4 (skipn 8 h) ++ [45%N]
    ++ firstn 4 (skipn 12 h) ++ [45%N] ++ firstn 4 (skipn 16 h) ++ [45%N]
    ++ skipn 20 h.

(** ** Python values *)

(** An exception instance: its class and [str(e)]. *)
Record exn : Type := Exn { exc_type : pystr; exc_str : pystr }.

(** The floating point operations within reach of the embedded code. *)
Class FloatModel : Type := {
  pyfloat : Type;
  (** [float(text)], as the decoder calls it on a number with a fraction or
      an exponent and on the constants [nan], [inf], [-inf] *)
  float_of_str : pystr -> pyfloat;
  (** the encoder's [floatstr]: [float.__repr__], or [NaN], [Infinity],
      [-Infinity] *)
  json_floatstr : pyfloat -> pystr;
  (** [x + n] for an [int] n *)
  float_add_int : pyfloat -> Z -> pyfloat
}.

(** The one-point model: enough to run the code on inputs without floats. *)
Definition no_floats : FloatModel :=
  {| pyfloat := unit;
     float_of_str := fun _ => tt;
     json_floatstr := fun _ => lit "nan";
     float_add_int := fun f _ => f |}.

Section Harness.

Context `{FM : FloatModel}.

(** The objects a session state, an argument or a result can be.  [PObject]
    stands for an instance of any class the encoder has no rule for; all the
    embedded code can learn of it is its class name and its [str()]. *)
#[local] Unset Elimination Schemes.
Inductive pyval : Type :=
| PNone
| PBool (b : bool)
| PInt (z : Z)
| PFloat (f : pyfloat)
| PStr (s : pystr)
| PList (l : list pyval)
| PTuple (l : list pyval)
| PDict (items : list (pyval * pyval))
| PObject (cls : pystr) (text : pystr).
#[local] Set Elimination Schemes.

(** [type(o).__name__] *)
Definition type_name (o : pyval) : pystr :=
  match o with
  | PNone => lit "NoneType"
  | PBool _ => lit "bool"
  | PInt _ => lit "int"
  | PFloat _ => lit "float"
  | PStr _ => lit "str"
  | PList _ => lit "list"
  | PTuple _ => lit "tuple"
  | PDict _ => lit "dict"
  | PObject cls _ => cls
  end.

(** *** Dictionaries with [str] keys *)

Definition key_is (k : pystr) (key : pyval) : bool :=
  match key with PStr k' => str_eqb k' k | _ => false end.

(** [d.get(k)] *)
Fixpoint pydict_get (k : pystr) (items : list (pyval * pyval)) : option pyval :=
  match items with
  | [] => None
  | (key, v) :: r => if key_is k key then Some v else pydict_get k r
  end.

(** [d[k] = v]: an existing key keeps its place, a new one goes last. *)
Fixpoint pydict_setitem (k : pystr) (v : pyval) (items : list (pyval * pyval))
  : list (pyval * pyval) :=
  match items with
  | [] => [(PStr k, v)]
  | (key, v') :: r =>
      if key_is k key then (key, v) :: r else (key, v') :: pydict_setitem k v r
  end.

(** [dict(pairs)] for pairs with [str] keys. *)
Definition pydict_of_pairs (pairs : list (pystr * pyval)) : list (pyval * pyval) :=
  fold_left (fun d kv => pydict_setitem (fst kv) (snd kv) d) pairs [].

(** ** [json.dumps(o, default=str)] *)

(** One character of [py_encode_basestring_ascii]: the short escapes, the
    printable ASCII range as it is, [\uXXXX] below 0x10000 and a surrogate
    pair above. *)
Definition escape_char (c : N) : pystr :=
  if (c =? 34)%N then [92; 34]%N
  else if (c =? 92)%N then [92; 92]%N
  else if (c =? 10)%N then [92; 110]%N
  else if (c =? 13)%N then [92; 114]%N
  else if (c =? 9)%N then [92; 116]%N
  else if (c =? 8)%N then [92; 98]%N
  else if (c =? 12)%N then [92; 102]%N
  else if (32 <=? c)%N && (c <=? 126)%N then [c]
  else if (c <? 0x10000)%N then [92; 117]%N ++ hex4 c
  else
    let n := (c - 0x10000)%N in
    let s1 := N.lor 0xd800 (N.land (N.shiftr n 10) 0x3ff) in
    let s2 := N.lor 0xdc00 (N.land n 0x3ff) in
    [92; 117]%N ++ hex4 s1 ++ [92; 117]%N ++ hex4 s2.

Definition encode_basestring_ascii (s : pystr) : pystr :=
  34%N :: flat_map escape_char s ++ [34%N].

(** The text a dictionary key is written as; any key that is not a [str],
    [int], [float], [bool] or [None] is a [TypeError]. *)
Definition encode_key (key : pyval) : exn + pystr :=
  match key with
  | PStr s => inr s
  | PFloat f => inr (json_floatstr f)
  | PBool true => inr (lit "true")
  | PBool false => inr (lit "false")
  | PNone => inr (lit "null")
  | PInt z => inr (str_of_Z z)
  | _ => inl (Exn (lit "TypeError")
                  (lit "keys must be str, int, float, bool or None, not "
                   ++ type_name key))
  end.

Fixpoint json_dumps (o : pyval) : exn + pystr :=
  match o with
  | PNone => inr (lit "null")
  | PBool true => inr (lit "true")
  | PBool false => inr (lit "false")
  | PInt z => inr (str_of_Z z)
  | PFloat f => inr (json_floatstr f)
  | PStr s => inr (encode_basestring_ascii s)
  | PList l | PTuple l =>
      match
        (fix elems (l : list pyval) : exn + pystr :=
           match l with
           | [] => inr []
           | x :: r =>
               match json_dumps x with
               | inl e => inl e
               | inr t =>
                   match r with
                   | [] => inr t
                   | _ :: _ =>
                       match elems r with
                       | inl e => inl e
                       | inr ts => inr (t ++ lit ", " ++ ts)
                       end
                   end
               end
           end) l
      with
      | inl e => inl e
      | inr body => inr (91%N :: body ++ [93%N])
      end
  | PDict items =>
      match
        (fix members (l : list (pyval * pyval)) : exn + pystr :=
           match l with
           | [] => inr []
           | (key, v) :: r =>
               match encode_key key with
               | inl e => inl e
               | inr k =>
                   match json_dumps v with
                   | inl e => inl e
                   | inr t =>
                       let m := encode_basestring_ascii k ++ lit ": " ++ t in
                       match r with
                       | [] => inr m
                       | _ :: _ =>
                           match members r with
                           | inl e => inl e
                           | inr ms => inr (m ++ lit ", " ++ ms)
                           end
                       end
                   end
               end
           end) items
      with
      | inl e => inl e
      | inr body => inr (123%N :: body ++ [125%N])
      end
  | PObject _ text => inr (encode_basestring_ascii text)
  end.

(** ** [json.loads]

    The decoder follows CPython's scanner ([json.scanner], [json.decoder] and
    their C counterparts in [_json]).  A scan returns the value and the input
    left, or the message and the place of a [JSONDecodeError]; the place is
    kept as the number of characters that were left. *)

Inductive scan (A : Type) : Type :=
| ScanOk (v : A) (rest : pystr)
| ScanError (msg : pystr) (left : nat)
| ScanFuel.
#[global] Arguments ScanOk {A} v rest.
#[global] Arguments ScanError {A} msg left.
#[global] Arguments ScanFuel {A}.

Definition scan_map {A B : Type} (f : A -> B) (r : scan A) : scan B :=
  match r with
  | ScanOk v rest => ScanOk (f v) rest
  | ScanError m p => ScanError m p
  | ScanFuel => ScanFuel
  end.

Definition is_ws (c : N) : bool :=
  (c =? 32)%N || (c =? 9)%N || (c =? 10)%N || (c =? 13)%N.

Fixpoint skip_ws (s : pystr) : pystr :=
  match s with
  | c :: r => if is_ws c then skip_ws r else s
  | [] => []
  end.

(** The [BACKSLASH] table of the decoder. *)
Definition backslash (esc : N) : option N :=
  if (esc =? 34)%N then Some 34%N
  else if (esc =? 92)%N then Some 92%N
  else if (esc =? 47)%N then Some 47%N
  else if (esc =? 98)%N then Some 8%N
  else if (esc =? 102)%N then Some 12%N
  else if (esc =? 110)%N then Some 10%N
  else if (esc =? 114)%N then Some 13%N
  else if (esc =? 116)%N then Some 9%N
  else None.

Definition hex4_value (a b c d : N) : option N :=
  match hexval a, hexval b, hexval c, hexval d with
  | Some x, Some y, Some z, Some w => Some (x * 4096 + y * 256 + z * 16 + w)%N
  | _, _, _, _ => None
  end.

Definition high_surrogate (c : N) : bool := (0xd800 <=? c)%N && (c <=? 0xdbff)%N.
Definition low_surrogate (c : N) : bool := (0xdc00 <=? c)%N && (c <=? 0xdfff)%N.

Definition join_surrogates (hi lo : N) : N :=
  (0x10000 + N.lor (N.shiftl (hi - 0xd800) 10) (lo - 0xdc00))%N.

Definition msg_unterminated : pystr := lit "Unterminated string starting at".
Definition msg_control : pystr := lit "Invalid control character at".
Definition msg_escape : pystr := lit "Invalid \escape".
Definition msg_uescape : pystr := lit "Invalid \uXXXX escape".
Definition msg_value : pystr := lit "Expecting value".
Definition msg_comma : pystr := lit "Expecting ',' delimiter".
Definition msg_colon : pystr := lit "Expecting ':' delimiter".
Definition msg_name : pystr := lit "Expecting property name enclosed in double quotes".
Definition msg_extra : pystr := lit "Extra data".
Definition msg_bom : pystr := lit "Unexpected UTF-8 BOM (decode using utf-8-sig)".

(** [scanstring], entered after the opening quote; [start] places that
    quote.  A [\uXXXX] escape needs one more character after its digits, and
    a high surrogate is joined with a low one that follows it as an escape
    of its own (which in turn needs one more character after it). *)
Fixpoint scanstring (start : nat) (s : pystr) : scan pystr :=
  match s with
  | [] => ScanError msg_unterminated start
  | c :: r =>
      if (c =? 34)%N then ScanOk [] r
      else if (c =? 92)%N then
        match r with
        | [] => ScanError msg_unterminated start
        | esc :: r1 =>
            if (esc =? 117)%N then
              match r1 with
              | a :: b :: c1 :: d :: ((_ :: _) as r2) =>
                  match hex4_value a b c1 d with
                  | None => ScanError msg_uescape (length r)
                  | Some uni =>
                      let plain := scan_map (cons uni) (scanstring start r2) in
                      if high_surrogate uni then
                        match r2 with
                        | e :: f :: a2 :: b2 :: c2 :: d2 :: ((_ :: _) as r4) =>
                            if (e =? 92)%N && (f =? 117)%N then
                              match hex4_value a2 b2 c2 d2 with
                              | None => ScanError msg_uescape (5 + length r4)
                              | Some uni2 =>
                                  if low_surrogate uni2
                                  then scan_map (cons (join_surrogates uni uni2))
                                                (scanstring start r4)
                                  else plain
                              end
                            else plain
                        | _ => plain
                        end
                      else plain
                  end
              | _ => ScanError msg_uescape (length r)
              end
            else
              match backslash esc with
              | Some ch => scan_map (cons ch) (scanstring start r1)
              | None => ScanError msg_escape (length s)
              end
        end
      else if (c <=? 31)%N then ScanError msg_control (length s)
      else scan_map (cons c) (scanstring start r)
  end.

Fixpoint span_digits (s : pystr) : pystr * pystr :=
  match s with
  | c :: r =>
      if is_digit c
      then let (ds, rest) := span_digits r in (c :: ds, rest)
      else ([], s)
  | [] => ([], [])
  end.

(** The integer part [0|[1-9][0-9]*]. *)
Definition match_int (s : pystr) : option (pystr * pystr) :=
  match s with
  | c :: r =>
      if (c =? 48)%N then Some ([c], r)
      else if is_digit c
           then let (ds, rest) := span_digits r in Some (c :: ds, rest)
           else None
  | [] => None
  end.

(** The fraction [\.[0-9]+], empty when there is none. *)
Definition match_frac (s : pystr) : pystr * pystr :=
  match s with
  | p :: d :: r =>
      if (p =? 46)%N && is_digit d
      then let (ds, rest) := span_digits r in (p :: d :: ds, rest)
      else ([], s)
  | _ => ([], s)
  end.

(** The exponent [[eE][-+]?[0-9]+], empty when there is none. *)
Definition match_exp (s : pystr) : pystr * pystr :=
  match s with
  | e :: r =>
      if (e =? 101)%N || (e =? 69)%N then
        let (sign, r1) :=
          match r with
          | c :: r' => if (c =? 45)%N || (c =? 43)%N then ([c], r') else ([], r)
          | [] => ([], r)
          end in
        let (ds, rest) := span_digits r1 in
        match ds with
        | [] => ([], s)
        | _ :: _ => (e :: sign ++ ds, rest)
        end
      else ([], s)
  | [] => ([], s)
  end.

(** A number: [int(text)] without fraction and exponent, [float(text)]
    with one of them. *)
Definition match_number (s : pystr) : option (pyval * pystr) :=
  let (sign, r) :=
    match s with
    | c :: r' => if (c =? 45)%N then (true, r') else (false, s)
    | [] => (false, s)
    end in
  match match_int r with
  | None => None
  | Some (ds, r1) =>
      let (frac, r2) := match_frac r1 in
      let (ex, r3) := match_exp r2 in
      match frac ++ ex with
      | [] =>
          Some (PInt (if sign then - Z.of_N (digits_value ds)
                      else Z.of_N (digits_value ds)), r3)
      | text =>
          Some (PFloat (float_of_str
                          ((if sign then [45%N] else []) ++ ds ++ text)), r3)
      end
  end.

Definition scan_cons {A : Type} (x : A) (r : scan (list A)) : scan (list A) :=
  scan_map (cons x) r.

(** [scan_once] with the loops of [JSONArray] and [JSONObject].  The fuel
    bounds the number of nested calls; [json_loads] gives enough of it. *)
Fixpoint scan_once (fuel : nat) (s : pystr) {struct fuel} : scan pyval :=
  match fuel with
  | O => ScanFuel
  | S k =>
      match s with
      | [] => ScanError msg_value 0
      | c :: r =>
          if (c =? 34)%N then scan_map PStr (scanstring (length s) r)
          else if (c =? 123)%N then
            (* JSONObject *)
            let r1 := skip_ws r in
            match r1 with
            | q :: r2 =>
                if (q =? 125)%N then ScanOk (PDict []) r2
                else if (q =? 34)%N
                then scan_map (fun pairs => PDict (pydict_of_pairs pairs))
                              (object_members k (length r1) r2)
                else ScanError msg_name (length r1)
            | [] => ScanError msg_name 0
            end
          else if (c =? 91)%N then
            (* JSONArray *)
            let r1 := skip_ws r in
            match r1 with
            | q :: r2 =>
                if (q =? 93)%N then ScanOk (PList []) r2
                else scan_map PList (array_items k r1)
            | [] => scan_map PList (array_items k r1)
            end
          else if startswith s (lit "null") then ScanOk PNone (skipn 4 s)
          else if startswith s (lit "true") then ScanOk (PBool true) (skipn 4 s)
          else if startswith s (lit "false") then ScanOk (PBool false) (skipn 5 s)
          else
            match match_number s with
            | Some (v, rest) => ScanOk v rest
            | None =>
                if startswith s (lit "NaN")
                then ScanOk (PFloat (float_of_str (lit "nan"))) (skipn 3 s)
                else if startswith s (lit "Infinity")
                then ScanOk (PFloat (float_of_str (lit "inf"))) (skipn 8 s)
                else if startswith s (lit "-Infinity")
                then ScanOk (PFloat (float_of_str (lit "-inf"))) (skipn 9 s)
                else ScanError msg_value (length s)
            end
      end
  end

with array_items (fuel : nat) (s : pystr) {struct fuel} : scan (list pyval) :=
  match fuel with
  | O => ScanFuel
  | S k =>
      match scan_once k s with
      | ScanOk v r =>
          let r1 := skip_ws r in
          match r1 with
          | c :: r2 =>
              if (c =? 93)%N then ScanOk [v] r2
              else if (c =? 44)%N then scan_cons v (array_items k (skip_ws r2))
              else ScanError msg_comma (length r1)
          | [] => ScanError msg_comma 0
          end
      | ScanError m p => ScanError m p
      | ScanFuel => ScanFuel
      end
  end

with object_members (fuel : nat) (start : nat) (s : pystr) {struct fuel}
  : scan (list (pystr * pyval)) :=
  match fuel with
  | O => ScanFuel
  | S k =>
      match scanstring start s with
      | ScanOk key r =>
          let r1 := skip_ws r in
          match r1 with
          | c :: r2 =>
              if (c =? 58)%N then
                match scan_once k (skip_ws r2) with
                | ScanOk v r3 =>
                    let r4 := skip_ws r3 in
                    match r4 with
                    | d :: r5 =>
                        if (d =? 125)%N then ScanOk [(key, v)] r5
                        else if (d =? 44)%N then
                          let r6 := skip_ws r5 in
                          match r6 with
                          | q :: r7 =>
                              if (q =? 34)%N
                              then scan_cons (key, v)
                                             (object_members k (length r6) r7)
                              else ScanError msg_name (length r6)
                          | [] => ScanError msg_name 0
                          end
                        else ScanError msg_comma (length r4)
                    | [] => ScanError msg_comma 0
                    end
                | ScanError m p => ScanError m p
                | ScanFuel => ScanFuel
                end
              else ScanError msg_colon (length r1)
          | [] => ScanError msg_colon 0
          end
      | ScanError m p => ScanError m p
      | ScanFuel => ScanFuel
      end
  end.

(** [json.JSONDecodeError(msg, doc, pos)] *)
Record JSONDecodeError : Type :=
  DecodeError { err_msg : pystr; err_doc : pystr; err_pos : nat }.

(** [doc.count('\n', 0, pos)] and the column of [pos] in its line. *)
Fixpoint line_col (doc : pystr) (pos : nat) (line col : N) : N * N :=
  match pos, doc with
  | O, _ | _, [] => (line, col)
  | S p, c :: r =>
      if (c =? 10)%N then line_col r p (line + 1)%N 1%N
      else line_col r p line (col + 1)%N
  end.

(** [str(e)]: ['%s: line %d column %d (char %d)']. *)
Definition decode_error_str (e : JSONDecodeError) : pystr :=
  let (line, col) := line_col (err_doc e) (err_pos e) 1%N 1%N in
  err_msg e ++ lit ": line " ++ str_of_N line ++ lit " column " ++ str_of_N col
    ++ lit " (char " ++ str_of_N (N.of_nat (err_pos e)) ++ lit ")".

(** [json.loads(s)] for a [str]: the byte-order mark is refused, white
    space around the value is skipped, and anything after it is [Extra
    data].  The fuel given is enough for every input ([json_loads_fuel]
    below), so the last case of the match never arises. *)
Definition json_loads (s : pystr) : JSONDecodeError + pyval :=
  if startswith s [0xfeff%N] then inl (DecodeError msg_bom s 0)
  else
    match scan_once (S (2 * length s)) (skip_ws s) with
    | ScanOk v r =>
        match skip_ws r with
        | [] => inr v
        | (_ :: _) as r1 => inl (DecodeError msg_extra s (length s - length r1))
        end
    | ScanError m p => inl (DecodeError m s (length s - p))
    | ScanFuel => inl (DecodeError msg_value s 0)
    end.

(** ** The service's dictionaries

    [self.contexts], [self.methods] and [self.method_metadata] are [dict]s
    with [str] keys; iteration follows insertion order. *)

Definition dict (V : Type) : Type := list (pystr * V).

(** [d.get(k)]; [k in d] is [dict_get k d <> None]. *)
Fixpoint dict_get {V : Type} (k : pystr) (d : dict V) : option V :=
  match d with
  | [] => None
  | (k', v) :: r => if str_eqb k' k then Some v else dict_get k r
  end.

(** [d[k] = v] *)
Fixpoint dict_set {V : Type} (k : pystr) (v : V) (d : dict V) : dict V :=
  match d with
  | [] => [(k, v)]
  | (k', v') :: r =>
      if str_eqb k' k then (k', v) :: r else (k', v') :: dict_set k v r
  end.

(** [del d[k]] *)
Fixpoint dict_del {V : Type} (k : pystr) (d : dict V) : dict V :=
  match d with
  | [] => []
  | (k', v) :: r => if str_eqb k' k then dict_del k r else (k', v) :: dict_del k r
  end.

(** ** Sessions: [class ExecutionContext] *)

Record ExecutionContext : Type :=
  { context_id : pystr; state : pyval }.

Inductive level : Type := DEBUG | INFO | WARNING | ERROR.

Inductive outcome : Type :=
| Return (v : pyval)
| Raise (e : exn).

(** The effects a handler performs: a [logging] record, or the call of a
    registered function, given by the registry name, the session passed as
    first argument (if any) and the keyword arguments. *)
Inductive event : Type :=
| Log (lv : level) (msg : pystr)
| Call (name : pystr) (session : option ExecutionContext)
       (kwargs : list (pystr * pyval)).

(** [ExecutionContext.__init__] *)
Definition ExecutionContext_init (context_id : pystr) (initial_state : pystr)
  : ExecutionContext * list event :=
  if truthy initial_state then
    match json_loads initial_state with
    | inr v => ({| context_id := context_id; state := v |}, [])
    | inl _ =>
        ({| context_id := context_id; state := PDict [] |},
         [Log WARNING (lit "Invalid initial state JSON for context " ++ context_id)])
    end
  else ({| context_id := context_id; state := PDict [] |}, []).

(** [ExecutionContext.get_state] *)
Definition get_state (self : ExecutionContext) : exn + pystr :=
  json_dumps (state self).

Definition TypeError (msg : pystr) : exn := Exn (lit "TypeError") msg.
Definition AttributeError (msg : pystr) : exn := Exn (lit "AttributeError") msg.
Definition KeyError (msg : pystr) : exn := Exn (lit "KeyError") msg.

(** [ExecutionContext.update_state]: [self.state[key] = value] *)
Definition update_state (self : ExecutionContext) (key : pystr) (value : pyval)
  : exn + ExecutionContext :=
  match state self with
  | PDict items =>
      inr {| context_id := context_id self;
             state := PDict (pydict_setitem key value items) |}
  | PList _ =>
      inl (TypeError (lit "list indices must be integers or slices, not str"))
  | other =>
      inl (TypeError (lit "'" ++ type_name other
                      ++ lit "' object does not support item assignment"))
  end.

(** ** Registered functions

    The dispatcher calls a registered function in one of two shapes,
    [func(exec_context, **args)] and [func( **args)]; a [Callable] gives what
    the function does under each.  A call that is handed the session may
    change it, whether it returns or raises; the session is all of the
    service that the dispatcher hands to a function, and the model lets a
    function reach nothing else of it. *)
Record Callable : Type := {
  (** how CPython names the function in a call error: [module.qualname] *)
  function_str : pystr;
  call_with_session :
    ExecutionContext -> list (pystr * pyval) -> outcome * ExecutionContext;
  call_plain : list (pystr * pyval) -> outcome
}.

Fixpoint str_keys (items : list (pyval * pyval)) : option (list (pystr * pyval)) :=
  match items with
  | [] => Some []
  | (PStr k, v) :: r =>
      match str_keys r with Some kw => Some ((k, v) :: kw) | None => None end
  | _ :: _ => None
  end.

(** The [**args] of a call: [args] has to be a mapping with [str] keys. *)
Definition kwargs_of (func : Callable) (args : pyval) : exn + list (pystr * pyval) :=
  match args with
  | PDict items =>
      match str_keys items with
      | Some kw => inr kw
      | None => inl (TypeError (lit "keywords must be strings"))
      end
  | _ =>
      inl (TypeError (function_str func
                      ++ lit "() argument after ** must be a mapping, not "
                      ++ type_name args))
  end.

(** ** [class TranspileTestServiceImpl] *)

Record Metadata : Type := {
  description : pystr;
  is_stateful : bool;
  parameter_types : list pystr;
  return_type : pystr
}.

Record TranspileTestServiceImpl : Type := {
  contexts : dict ExecutionContext;
  methods : dict Callable;
  method_metadata : dict Metadata
}.

(** What a handler leaves behind: the service, its reply and its effects. *)
Record handled (R : Type) : Type :=
  { after : TranspileTestServiceImpl; reply : R; trace : list event }.
#[global] Arguments after {R} h.
#[global] Arguments reply {R} h.
#[global] Arguments trace {R} h.

(** [TranspileTestServiceImpl.__init__] *)
Definition init : TranspileTestServiceImpl :=
  {| contexts := []; methods := []; method_metadata := [] |}.

(** [register_function]; [parameter_types] is [None] by default. *)
Definition register_function (self : TranspileTestServiceImpl)
    (name : pystr) (func : Callable) (description : pystr) (is_stateful : bool)
    (parameter_types : option (list pystr)) (return_type : pystr)
  : handled unit :=
  {| after :=
       {| contexts := contexts self;
          methods := dict_set name func (methods self);
          method_metadata :=
            dict_set name
              {| description := description;
                 is_stateful := is_stateful;
                 parameter_types :=
                   match parameter_types with Some l => l | None => [] end;
                 return_type := return_type |}
              (method_metadata self) |};
     reply := tt;
     trace := [Log INFO (lit "Registered function: " ++ name)] |}.

(** *** Messages of the protocol (transpile_test.proto); a field that is not
    set holds its default. *)

Record CreateContextRequest : Type := { initial_state : pystr }.
Record CreateContextResponse : Type :=
  { cc_context_id : pystr; cc_success : bool; cc_error : pystr }.

Record InvokeMethodRequest : Type :=
  { method_name : pystr; req_context_id : pystr; arguments : pystr }.
Record ExecutionMetadata : Type :=
  { execution_time_us : Z; memory_bytes : Z; runtime : pystr }.
Record InvokeMethodResponse : Type := {
  success : bool;
  result : pystr;
  error : pystr;
  metadata : option ExecutionMetadata
}.

Record InspectStateResponse : Type :=
  { is_success : bool; is_state : pystr; is_error : pystr }.
Record DestroyContextResponse : Type :=
  { dc_success : bool; dc_error : pystr }.

Record MethodInfo : Type := {
  mi_name : pystr;
  mi_description : pystr;
  mi_is_stateful : bool;
  mi_parameter_types : list pystr;
  mi_return_type : pystr
}.

(** [CreateContext]; [random] is what [os.urandom(16)] returned. *)
Definition CreateContext (self : TranspileTestServiceImpl)
    (request : CreateContextRequest) (random : N)
  : handled CreateContextResponse :=
  let context_id := uuid_str (uuid4 random) in
  let (exec_context, warned) :=
    ExecutionContext_init context_id (initial_state request) in
  {| after :=
       {| contexts := dict_set context_id exec_context (contexts self);
          methods := methods self;
          method_metadata := method_metadata self |};
     reply := {| cc_context_id := context_id; cc_success := true; cc_error := [] |};
     trace := warned ++ [Log INFO (lit "Created context: " ++ context_id)] |}.

(** [InvokeMethodResponse(success=False, error=...)] *)
Definition failure (msg : pystr) : InvokeMethodResponse :=
  {| success := false; result := []; error := msg; metadata := None |}.

(** The [except Exception as e] clause of [InvokeMethod]. *)
Definition caught (after : TranspileTestServiceImpl) (name : pystr)
    (calls : list event) (e : exn) : handled InvokeMethodResponse :=
  {| after := after;
     reply := failure (exc_str e);
     trace := calls ++ [Log ERROR (lit "Error executing " ++ name ++ lit ": "
                                   ++ exc_str e)] |}.

(** The end of the [try] block of [InvokeMethod], from the result of the
    call on. *)
Definition respond (after : TranspileTestServiceImpl) (name : pystr)
    (calls : list event) (elapsed_us : Z) (o : outcome)
  : handled InvokeMethodResponse :=
  match o with
  | Raise e => caught after name calls e
  | Return v =>
      match json_dumps v with
      | inl e => caught after name calls e
      | inr result_json =>
          {| after := after;
             reply :=
               {| success := true;
                  result := result_json;
                  error := [];
                  metadata := Some {| execution_time_us := elapsed_us;
                                      memory_bytes := 0;
                                      runtime := lit "python" |} |};
             trace := calls ++ [Log DEBUG (lit "Executed " ++ name ++ lit " in "
                                           ++ str_of_Z elapsed_us ++ lit "us")] |}
      end
  end.

(** [func( **args)] and what follows it. *)
Definition invoke_plain (self : TranspileTestServiceImpl) (name : pystr)
    (func : Callable) (args : pyval) (elapsed_us : Z)
  : handled InvokeMethodResponse :=
  match kwargs_of func args with
  | inl e => caught self name [] e
  | inr kw => respond self name [Call name None kw] elapsed_us (call_plain func kw)
  end.

(** [func(exec_context, **args)] and what follows it; the session object
    stays under its key with whatever the call did to it. *)
Definition invoke_with_session (self : TranspileTestServiceImpl) (name : pystr)
    (func : Callable) (key : pystr) (exec_context : ExecutionContext)
    (args : pyval) (elapsed_us : Z)
  : handled InvokeMethodResponse :=
  match kwargs_of func args with
  | inl e => caught self name [] e
  | inr kw =>
      let (o, exec_context') := call_with_session func exec_context kw in
      respond {| contexts := dict_set key exec_context' (contexts self);
                 methods := methods self;
                 method_metadata := method_metadata self |}
              name [Call name (Some exec_context) kw] elapsed_us o
  end.

(** [json.loads(request.arguments) if request.arguments else {}] *)
Definition parse_arguments (arguments : pystr) : JSONDecodeError + pyval :=
  if truthy arguments then json_loads arguments else inr (PDict []).

(** [InvokeMethod]; [elapsed_us] is the time the performance counter
    measured, in whole microseconds. *)
Definition InvokeMethod (self : TranspileTestServiceImpl)
    (request : InvokeMethodRequest) (elapsed_us : Z)
  : handled InvokeMethodResponse :=
  let name := method_name request in
  match dict_get name (methods self) with
  | None =>
      {| after := self;
         reply := failure (lit "Method not found: " ++ name);
         trace := [] |}
  | Some func =>
      match parse_arguments (arguments request) with
      | inl e =>
          {| after := self;
             reply := failure (lit "Invalid JSON arguments: " ++ decode_error_str e);
             trace := [] |}
      | inr args =>
          if truthy (req_context_id request) then
            match dict_get (req_context_id request) (contexts self) with
            | None =>
                {| after := self;
                   reply := failure (lit "Context not found: "
                                     ++ req_context_id request);
                   trace := [] |}
            | Some exec_context =>
                match dict_get name (method_metadata self) with
                | None => caught self name [] (KeyError (lit "'" ++ name ++ lit "'"))
                | Some md =>
                    if is_stateful md
                    then invoke_with_session self name func
                           (req_context_id request) exec_context args elapsed_us
                    else invoke_plain self name func args elapsed_us
                end
            end
          else invoke_plain self name func args elapsed_us
      end
  end.

(** [InspectState]; a failure of [get_state] is not caught by the handler. *)
Definition InspectState (self : TranspileTestServiceImpl) (id : pystr)
  : handled (exn + InspectStateResponse) :=
  match dict_get id (contexts self) with
  | None =>
      {| after := self;
         reply := inr {| is_success := false; is_state := [];
                         is_error := lit "Context not found: " ++ id |};
         trace := [] |}
  | Some exec_context =>
      {| after := self;
         reply :=
           match get_state exec_context with
           | inl e => inl e
           | inr text => inr {| is_success := true; is_state := text; is_error := [] |}
           end;
         trace := [] |}
  end.

(** [DestroyContext] *)
Definition DestroyContext (self : TranspileTestServiceImpl) (id : pystr)
  : handled DestroyContextResponse :=
  match dict_get id (contexts self) with
  | Some _ =>
      {| after := {| contexts := dict_del id (contexts self);
                     methods := methods self;
                     method_metadata := method_metadata self |};
         reply := {| dc_success := true; dc_error := [] |};
         trace := [Log INFO (lit "Destroyed context: " ++ id)] |}
  | None =>
      {| after := self;
         reply := {| dc_success := false;
                     dc_error := lit "Context not found: " ++ id |};
         trace := [] |}
  end.

Definition method_info (entry : pystr * Metadata) : MethodInfo :=
  {| mi_name := fst entry;
     mi_description := description (snd entry);
     mi_is_stateful := is_stateful (snd entry);
     mi_parameter_types := parameter_types (snd entry);
     mi_return_type := return_type (snd entry) |}.

(** The loop of [ListMethods] over [self.method_metadata.items()]. *)
Fixpoint list_loop (prefix : pystr) (items : dict Metadata) : list MethodInfo :=
  match items with
  | [] => []
  | (name, md) :: r =>
      if truthy prefix && negb (startswith name prefix)
      then list_loop prefix r
      else method_info (name, md) :: list_loop prefix r
  end.

(** [ListMethods] *)
Definition ListMethods (self : TranspileTestServiceImpl) (prefix : pystr)
  : handled (list MethodInfo) :=
  {| after := self;
     reply := list_loop prefix (method_metadata self);
     trace := [] |}.

(** ** The requests a client can send, and a run of the server *)

Inductive rpc : Type :=
| Create (request : CreateContextRequest) (random : N)
| Invoke (request : InvokeMethodRequest) (elapsed_us : Z)
| Inspect (id : pystr)
| Destroy (id : pystr)
| Methods (prefix : pystr).

Inductive answer : Type :=
| Created (r : CreateContextResponse)
| Invoked (r : InvokeMethodResponse)
| Inspected (r : exn + InspectStateResponse)
| Destroyed (r : DestroyContextResponse)
| Listed (r : list MethodInfo).

Definition answered {R : Type} (f : R -> answer) (h : handled R) : handled answer :=
  {| after := after h; reply := f (reply h); trace := trace h |}.

Definition serve (self : TranspileTestServiceImpl) (r : rpc) : handled answer :=
  match r with
  | Create request random => answered Created (CreateContext self request random)
  | Invoke request elapsed_us => answered Invoked (InvokeMethod self request elapsed_us)
  | Inspect id => answered Inspected (InspectState self id)
  | Destroy id => answered Destroyed (DestroyContext self id)
  | Methods prefix => answered Listed (ListMethods self prefix)
  end.

(** Requests served one after the other. *)
Fixpoint serve_all (self : TranspileTestServiceImpl) (rs : list rpc)
  : TranspileTestServiceImpl * list answer :=
  match rs with
  | [] => (self, [])
  | r :: rs' =>
      let h := serve self r in
      let (self', answers) := serve_all (after h) rs' in
      (self', reply h :: answers)
  end.

(** The states the service can be in: it starts empty, functions are
    registered, requests are served. *)
Inductive reachable : TranspileTestServiceImpl -> Prop :=
| reach_init : reachable init
| reach_register self name func description stateful parameter_types return_type :
    reachable self ->
    reachable (after (register_function self name func description stateful
                                        parameter_types return_type))
| reach_serve self r :
    reachable self -> reachable (after (serve self r)).

(** The session a request names, if it names one. *)
Definition session_of (r : rpc) : option pystr :=
  match r with
  | Invoke request _ =>
      if truthy (req_context_id request) then Some (req_context_id request) else None
  | Inspect id | Destroy id => Some id
  | Create _ _ | Methods _ => None
  end.


(** ** examples/simple_math/impl.py: [counter_increment] *)

(** [current + 1] *)
Definition add_one (current : pyval) : exn + pyval :=
  match current with
  | PInt z => inr (PInt (z + 1))
  | PBool b => inr (PInt ((if b then 1 else 0) + 1))
  | PFloat f => inr (PFloat (float_add_int f 1))
  | PStr _ | PList _ | PTuple _ =>
      inl (TypeError (lit "can only concatenate " ++ type_name current
                      ++ lit " (not " ++ [34%N] ++ lit "int" ++ [34%N]
                      ++ lit ") to " ++ type_name current))
  | PNone | PDict _ | PObject _ _ =>
      inl (TypeError (lit "unsupported operand type(s) for +: '"
                      ++ type_name current ++ lit "' and 'int'"))
  end.

(** The body of [counter_increment], run on a session. *)
Definition counter_increment_body (context : ExecutionContext)
  : outcome * ExecutionContext :=
  match state context with
  | PDict items =>
      let current :=
        match pydict_get (lit "counter") items with
        | Some v => v
        | None => PInt 0
        end in
      match add_one current with
      | inl e => (Raise e, context)
      | inr new_value =>
          match update_state context (lit "counter") new_value with
          | inl e => (Raise e, context)
          | inr context' => (Return new_value, context')
          end
      end
  | other =>
      (Raise (AttributeError (lit "'" ++ type_name other
                              ++ lit "' object has no attribute 'get'")),
       context)
  end.

Definition unexpected_keyword (k : pystr) : exn :=
  TypeError (lit "counter_increment() got an unexpected keyword argument '"
             ++ k ++ lit "'").

(** [def counter_increment(context)]: its one parameter is bound
    positionally when the dispatcher passes the session; every keyword is
    then in the way.  Called with keywords only, [context] is whatever the
    keyword of that name carries: a decoded JSON value, never a session. *)
Definition counter_increment : Callable :=
  {| function_str := lit "dynamic_module.counter_increment";
     call_with_session context kw :=
       match kw with
       | [] => counter_increment_body context
       | (k, _) :: _ =>
           if str_eqb k (lit "context")
           then (Raise (TypeError (lit "counter_increment() got multiple values for argument 'context'")),
                 context)
           else (Raise (unexpected_keyword k), context)
       end;
     call_plain kw :=
       match find (fun kv => negb (str_eqb (fst kv) (lit "context"))) kw with
       | Some (k, _) => Raise (unexpected_keyword k)
       | None =>
           match kw with
           | [] =>
               Raise (TypeError (lit "counter_increment() missing 1 required positional argument: 'context'"))
           | (_, v) :: _ =>
               Raise (AttributeError (lit "'" ++ type_name v
                                      ++ lit "' object has no attribute 'state'"))
           end
       end |}.

(** The request that invokes [counter_increment] on a session, without
    arguments. *)
Definition count_on (id : pystr) (elapsed_us : Z) : rpc :=
  Invoke {| method_name := lit "counter_increment";
            req_context_id := id;
            arguments := [] |} elapsed_us.

(** The reply to an invocation that returned the integer [n]. *)
Definition returned_int (n : Z) (elapsed_us : Z) : InvokeMethodResponse :=
  {| success := true;
     result := str_of_Z n;
     error := [];
     metadata := Some {| execution_time_us := elapsed_us;
                         memory_bytes := 0;
                         runtime := lit "python" |} |}.

(** The answers to invocations that return [first], [first + 1], ... *)
Definition counting (first : nat) (elapsed : list Z) : list answer :=
  map (fun nt => Invoked (returned_int (Z.of_nat (fst nt)) (snd nt)))
      (combine (seq first (length elapsed)) elapsed).

(** The calls in a trace, and what a call came to. *)
Definition calls (t : list event) : list event :=
  filter (fun ev => match ev with Call _ _ _ => true | Log _ _ => false end) t.


(** Two services that differ at most in the session under [id]. *)
Definition same_but (id : pystr) (s1 s2 : TranspileTestServiceImpl) : Prop :=
  methods s1 = methods s2
  /\ method_metadata s1 = method_metadata s2
  /\ forall k, k <> id -> dict_get k (contexts s1) = dict_get k (contexts s2).

(** [n] is what [context.state.get("counter", 0)] reads. *)
Definition counter_reads (n : Z) (items : list (pyval * pyval)) : Prop :=
  pydict_get (lit "counter") items = Some (PInt n)
  \/ (n = 0%Z /\ pydict_get (lit "counter") items = None).

(** ** The values of the encoding

    What [json.loads] can give back: numbers (here the integers), strings,
    booleans, [None], lists, and dictionaries with distinct [str] keys.  A
    string is required to be made of code points, and not to hold a high
    surrogate right before a low one: the encoder writes the two as two
    escapes, which the decoder reads as one character. *)














(** A scan that did not run out of fuel and, if it gave a value, left less
    than all of [s]. *)
Definition consumed {A : Type} (s : pystr) (x : scan A) : Prop :=
  match x with
  | ScanOk _ r => length r < length s
  | ScanError _ _ => True
  | ScanFuel => False
  end.


End Harness.

(** ** A service to run: [counter_increment] registered the way the loader
    registers it from its decorator, on the float-free model. *)

Definition demo : TranspileTestServiceImpl (FM := no_floats) :=
  after (register_function init (lit "counter_increment") counter_increment
                           (lit "Increment a counter (stateful)") true (Some [])
                           (lit "int")).

(** The id [CreateContext] gives out when the random bits are all zero. *)
Definition zero_id : pystr := uuid_str (uuid4 0).

(** [demo] after a [CreateContext] without initial state. *)
Definition demo_session : TranspileTestServiceImpl (FM := no_floats) :=
  after (serve demo (Create {| initial_state := [] |} 0)).


(** A text between double quotes. *)
Definition quoted (s : pystr) : pystr := 34%N :: s ++ [34%N].


(** The text of an object with the one member ["counter": 5]. *)
Definition counter_at_5 : pystr := lit "{" ++ quoted (lit "counter") ++ lit ": 5}".

(** * Properties *)

Section Properties.

Context `{FM : FloatModel}.


(** ** Strings and dictionaries *)

Lemma str_eqb_refl (a : pystr) : str_eqb a a = true.
Proof.
  induction a as [|x a IH]; simpl; [reflexivity|].
  now rewrite N.eqb_refl, IH.
Qed.

Lemma str_eqb_eq (a b : pystr) : str_eqb a b = true <-> a = b.
Proof.
  split; [|intros ->; apply str_eqb_refl].
  revert b; induction a as [|x a IH]; intros [|y b]; simpl; try discriminate; auto.
  intros H; apply andb_true_iff in H as [Hx Hr].
  apply N.eqb_eq in Hx; subst y; f_equal; auto.
Qed.

Lemma str_eqb_neq (a b : pystr) : a <> b -> str_eqb a b = false.
Proof.
  intros H; destruct (str_eqb a b) eqn:E; [|reflexivity].
  apply str_eqb_eq in E; contradiction.
Qed.

Section Dict.
Variable V : Type.
Implicit Types (d : dict V) (k : pystr) (v : V).

Lemma dict_get_set_same k v d : dict_get k (dict_set k v d) = Some v.
Proof.
  induction d as [|[k' v'] d IH]; simpl.
  - now rewrite str_eqb_refl.
  - destruct (str_eqb k' k) eqn:E; simpl; rewrite E; auto.
Qed.

Lemma dict_get_set_other k k' v d :
  k <> k' -> dict_get k' (dict_set k v d) = dict_get k' d.
Proof.
  intros Hne; induction d as [|[k0 v0] d IH]; simpl.
  - now rewrite str_eqb_neq.
  - destruct (str_eqb k0 k) eqn:E; simpl.
    + apply str_eqb_eq in E; subst k0. now rewrite str_eqb_neq.
    + now rewrite IH.
Qed.

Lemma dict_get_del_same k d : dict_get k (dict_del k d) = None.
Proof.
  induction d as [|[k' v'] d IH]; simpl; [reflexivity|].
  destruct (str_eqb k' k) eqn:E; simpl; [|rewrite E]; auto.
Qed.

Lemma dict_get_del_other k k' d :
  k <> k' -> dict_get k' (dict_del k d) = dict_get k' d.
Proof.
  intros Hne; induction d as [|[k0 v0] d IH]; simpl; [reflexivity|].
  destruct (str_eqb k0 k) eqn:E; simpl.
  - apply str_eqb_eq in E; subst k0. now rewrite str_eqb_neq.
  - now rewrite IH.
Qed.

(** Assigning to a key that is there changes no key. *)
Lemma dict_set_keys k v v0 d :
  dict_get k d = Some v0 -> map fst (dict_set k v d) = map fst d.
Proof.
  induction d as [|[k' v'] d IH]; simpl; [discriminate|].
  destruct (str_eqb k' k) eqn:E; simpl; intros H; [reflexivity|].
  now rewrite IH.
Qed.

(** Assigning to a key that is not there puts it last. *)
Lemma dict_set_new k v d :
  dict_get k d = None -> dict_set k v d = d ++ [(k, v)].
Proof.
  induction d as [|[k' v'] d IH]; simpl; [reflexivity|].
  destruct (str_eqb k' k) eqn:E; intros H; [discriminate|].
  now rewrite IH.
Qed.
End Dict.

(** ** The dispatcher *)

Ltac case_match :=
  match goal with
  | |- context [match ?x with _ => _ end] => destruct x eqn:?
  | H : context [match ?x with _ => _ end] |- _ => destruct x eqn:?
  end.

Lemma calls_app (t u : list event) : calls (t ++ u) = calls t ++ calls u.
Proof. apply filter_app. Qed.

Lemma caught_facts self name cs e :
  after (caught self name cs e) = self
  /\ reply (caught self name cs e) = failure (exc_str e)
  /\ calls (trace (caught self name cs e)) = calls cs.
Proof.
  unfold caught; simpl; repeat split.
  rewrite calls_app; simpl. apply app_nil_r.
Qed.

Lemma respond_facts self name cs elapsed_us o :
  after (respond self name cs elapsed_us o) = self
  /\ calls (trace (respond self name cs elapsed_us o)) = calls cs.
Proof.
  unfold respond; destruct o as [v|e]; [destruct (json_dumps v)|];
    simpl; rewrite ?calls_app; simpl; rewrite ?app_nil_r; auto.
Qed.

(** C1. A request for a method name that is not registered is answered
    with [success=false], the error [Method not found: <name>], no result
    and no execution metadata, whatever its arguments payload and its
    context id are; the service is left as it was and nothing is logged or
    called.  (The lookup comes first: neither field is looked at.) *)
Theorem InvokeMethod_unregistered self request elapsed_us :
  dict_get (method_name request) (methods self) = None ->
  InvokeMethod self request elapsed_us =
    {| after := self;
       reply := {| success := false;
                   result := [];
                   error := lit "Method not found: " ++ method_name request;
                   metadata := None |};
       trace := [] |}.
Proof.
  intros H; unfold InvokeMethod; now rewrite H.
Qed.



Lemma same_but_refl id self : same_but id self self.
Proof. repeat split. Qed.

Lemma respond_reply s1 s2 name cs elapsed_us o :
  reply (respond s1 name cs elapsed_us o) = reply (respond s2 name cs elapsed_us o)
  /\ trace (respond s1 name cs elapsed_us o) = trace (respond s2 name cs elapsed_us o).
Proof.
  unfold respond; destruct o as [v|e]; [destruct (json_dumps v)|]; simpl; auto.
Qed.

Lemma same_but_set id k c s1 s2 :
  same_but id s1 s2 ->
  same_but id
    {| contexts := dict_set k c (contexts s1); methods := methods s1;
       method_metadata := method_metadata s1 |}
    {| contexts := dict_set k c (contexts s2); methods := methods s2;
       method_metadata := method_metadata s2 |}.
Proof.
  intros (Hm & Hd & Hc); repeat split; simpl; auto.
  intros k' Hk'. destruct (list_eq_dec N.eq_dec k k') as [->|Hne].
  - now rewrite !dict_get_set_same.
  - rewrite !dict_get_set_other by assumption. auto.
Qed.

Lemma InvokeMethod_same_but id s1 s2 request elapsed_us :
  same_but id s1 s2 ->
  session_of (Invoke request elapsed_us) <> Some id ->
  reply (InvokeMethod s1 request elapsed_us) = reply (InvokeMethod s2 request elapsed_us)
  /\ trace (InvokeMethod s1 request elapsed_us) = trace (InvokeMethod s2 request elapsed_us)
  /\ same_but id (after (InvokeMethod s1 request elapsed_us))
                 (after (InvokeMethod s2 request elapsed_us)).
Proof.
  intros Hs Hr. pose proof Hs as (Hm & Hd & Hc). simpl in Hr.
  unfold InvokeMethod. rewrite <- Hm, <- Hd.
  destruct (dict_get (method_name request) (methods s1)) as [func|]; [|simpl; auto].
  destruct (parse_arguments (arguments request)) as [e|args]; [simpl; auto|].
  assert (Hplain :
    reply (invoke_plain s1 (method_name request) func args elapsed_us)
      = reply (invoke_plain s2 (method_name request) func args elapsed_us)
    /\ trace (invoke_plain s1 (method_name request) func args elapsed_us)
      = trace (invoke_plain s2 (method_name request) func args elapsed_us)
    /\ same_but id (after (invoke_plain s1 (method_name request) func args elapsed_us))
                   (after (invoke_plain s2 (method_name request) func args elapsed_us))).
  { unfold invoke_plain. destruct (kwargs_of func args); simpl; auto.
    rewrite !(proj1 (respond_facts _ _ _ _ _)).
    destruct (respond_reply s1 s2 (method_name request)
                [Call (method_name request) None l] elapsed_us (call_plain func l)); auto. }
  destruct (truthy (req_context_id request)); [|exact Hplain].
  assert (Hne : req_context_id request <> id) by congruence.
  rewrite <- (Hc _ Hne).
  destruct (dict_get (req_context_id request) (contexts s1)) as [c|]; [|simpl; auto].
  destruct (dict_get (method_name request) (method_metadata s1)) as [md|]; [|simpl; auto].
  destruct (is_stateful md); [|exact Hplain].
  unfold invoke_with_session. destruct (kwargs_of func args); [simpl; auto|].
  destruct (call_with_session func c l) as [o c'].
  rewrite !(proj1 (respond_facts _ _ _ _ _)).
  match goal with
  | |- reply (respond ?a ?n ?cs ?t ?o) = reply (respond ?b _ _ _ _) /\ _ =>
      destruct (respond_reply a b n cs t o)
  end.
  repeat split; auto; apply (same_but_set (req_context_id request) c' Hs).
Qed.

(** A request that does not name the session under [id] is answered the
    same by two services that differ at most in that session. *)
Lemma serve_same_but id s1 s2 r :
  same_but id s1 s2 ->
  session_of r <> Some id ->
  reply (serve s1 r) = reply (serve s2 r)
  /\ trace (serve s1 r) = trace (serve s2 r)
  /\ same_but id (after (serve s1 r)) (after (serve s2 r)).
Proof.
  intros Hs Hr. pose proof Hs as (Hm & Hd & Hc).
  destruct r as [request random|request elapsed_us|k|k|prefix]; simpl.
  - unfold CreateContext.
    destruct (ExecutionContext_init (uuid_str (uuid4 random)) (initial_state request))
      as [c w]; simpl.
    repeat split; auto; apply (same_but_set _ c Hs).
  - destruct (InvokeMethod_same_but request elapsed_us Hs Hr) as (H1 & H2 & H3).
    rewrite H1, H2. auto.
  - simpl in Hr. assert (Hne : k <> id) by congruence.
    unfold InspectState. rewrite <- (Hc _ Hne).
    destruct (dict_get k (contexts s1)); simpl; auto.
  - simpl in Hr. assert (Hne : k <> id) by congruence.
    unfold DestroyContext. rewrite <- (Hc _ Hne).
    destruct (dict_get k (contexts s1)); simpl; auto.
    repeat split; simpl; auto.
    intros k' Hk'. destruct (list_eq_dec N.eq_dec k k') as [->|Hkk].
    + now rewrite !dict_get_del_same.
    + rewrite !dict_get_del_other by assumption. auto.
  - unfold ListMethods; simpl. rewrite Hd. auto.
Qed.

Lemma serve_all_same_but id rs : forall s1 s2,
  same_but id s1 s2 ->
  Forall (fun r => session_of r <> Some id) rs ->
  snd (serve_all s1 rs) = snd (serve_all s2 rs)
  /\ same_but id (fst (serve_all s1 rs)) (fst (serve_all s2 rs)).
Proof.
  induction rs as [|r rs IH]; intros s1 s2 Hs Hall; simpl; [auto|].
  inversion Hall as [|? ? Hr Hrs]; subst.
  destruct (serve_same_but r Hs Hr) as (H1 & _ & H3).
  specialize (IH _ _ H3 Hrs).
  destruct (serve_all (after (serve s1 r)) rs) as [a1 l1].
  destruct (serve_all (after (serve s2 r)) rs) as [a2 l2].
  simpl in *. destruct IH as [-> ?]. rewrite H1. auto.
Qed.

(** What [InvokeMethod] leaves of the service: the registry as it was, and
    every session but the one the request names. *)
Lemma InvokeMethod_after self request elapsed_us :
  same_but (req_context_id request) (after (InvokeMethod self request elapsed_us)) self.
Proof.
  unfold InvokeMethod.
  repeat (case_match; try apply same_but_refl);
    unfold invoke_plain, invoke_with_session, caught;
    repeat (case_match; try apply same_but_refl);
    rewrite ?(proj1 (respond_facts _ _ _ _ _)); try apply same_but_refl.
  repeat split; simpl; auto.
  intros k Hk. now apply dict_get_set_other.
Qed.





(** ** Sessions *)

Lemma uuid_str_truthy (i : N) : truthy (uuid_str i) = true.
Proof.
  unfold uuid_str. destruct (firstn 8 (hex_fixed 32 i)); reflexivity.
Qed.

Lemma dict_get_del_some (V : Type) (k k' : pystr) (d : dict V) (v : V) :
  dict_get k' (dict_del k d) = Some v -> dict_get k' d = Some v.
Proof.
  destruct (list_eq_dec N.eq_dec k k') as [->|Hne].
  - now rewrite dict_get_del_same.
  - now rewrite dict_get_del_other.
Qed.

(** [InvokeMethod] either leaves the service as it was or stores, under the
    id the request names, what the call made of the session found there. *)
Lemma InvokeMethod_contexts self request elapsed_us :
  after (InvokeMethod self request elapsed_us) = self
  \/ exists c c',
       truthy (req_context_id request) = true
       /\ dict_get (req_context_id request) (contexts self) = Some c
       /\ after (InvokeMethod self request elapsed_us)
          = {| contexts := dict_set (req_context_id request) c' (contexts self);
               methods := methods self;
               method_metadata := method_metadata self |}.
Proof.
  unfold InvokeMethod.
  destruct (dict_get (method_name request) (methods self)) as [func|]; [|now left].
  destruct (parse_arguments (arguments request)) as [e|args]; [now left|].
  assert (Hplain : after (invoke_plain self (method_name request) func args elapsed_us)
                   = self).
  { unfold invoke_plain. destruct (kwargs_of func args); [reflexivity|].
    apply respond_facts. }
  destruct (truthy (req_context_id request)) eqn:Hid; [|now left].
  destruct (dict_get (req_context_id request) (contexts self)) as [c|] eqn:Hc; [|now left].
  destruct (dict_get (method_name request) (method_metadata self)) as [md|]; [|now left].
  destruct (is_stateful md); [|now left].
  unfold invoke_with_session. destruct (kwargs_of func args); [now left|].
  destruct (call_with_session func c l) as [o c'].
  right. exists c, c'. repeat split. apply respond_facts.
Qed.

(** No session of a reachable service lives under the empty id. *)
Lemma reachable_ids self :
  reachable self ->
  forall k c, dict_get k (contexts self) = Some c -> truthy k = true.
Proof.
  induction 1 as [|self name func d st pt rt Hr IH|self r Hr IH]; intros k c.
  - discriminate.
  - simpl. apply IH.
  - destruct r as [request random|request elapsed_us|id|id|prefix]; simpl.
    + unfold CreateContext.
      destruct (ExecutionContext_init _ _) as [c0 w]; simpl.
      destruct (list_eq_dec N.eq_dec (uuid_str (uuid4 random)) k) as [<-|Hne].
      * intros _. apply uuid_str_truthy.
      * rewrite dict_get_set_other by assumption. apply IH.
    + destruct (InvokeMethod_contexts self request elapsed_us)
        as [->|(c0 & c' & Hid & Hc & ->)]; [apply IH|simpl].
      destruct (list_eq_dec N.eq_dec (req_context_id request) k) as [<-|Hne].
      * intros _. exact Hid.
      * rewrite dict_get_set_other by assumption. apply IH.
    + unfold InspectState. destruct (dict_get id (contexts self)); simpl; apply IH.
    + unfold DestroyContext. destruct (dict_get id (contexts self)); simpl.
      * intros H. apply dict_get_del_some in H. revert H. apply IH.
      * apply IH.
    + apply IH.
Qed.






(** ** The registry *)

Lemma list_loop_filter prefix (items : dict Metadata) :
  list_loop prefix items
  = map method_info (filter (fun entry => startswith (fst entry) prefix) items).
Proof.
  induction items as [|[name md] items IH]; [reflexivity|].
  cbn [list_loop filter fst]. rewrite IH.
  destruct prefix as [|p prefix]; [reflexivity|].
  cbn [truthy andb].
  destruct (startswith name (p :: prefix)); reflexivity.
Qed.

Lemma dict_set_nodup (V : Type) (k : pystr) (v : V) (d : dict V) :
  NoDup (map fst d) -> NoDup (map fst (dict_set k v d)).
Proof.
  intros Hd. destruct (dict_get k d) as [v0|] eqn:E.
  - now erewrite dict_set_keys by eassumption.
  - rewrite dict_set_new by assumption. rewrite map_app. simpl.
    apply NoDup_incl_NoDup with (l := k :: map fst d).
    + constructor; [|assumption].
      intros Hin. apply in_map_iff in Hin as [[k' v'] [Hk Hin]]. simpl in Hk; subst k'.
      clear -E Hin. induction d as [|[k0 v0] d IH]; [destruct Hin|].
      simpl in E. destruct (str_eqb k0 k) eqn:E0; [discriminate|].
      destruct Hin as [Hin|Hin]; [|auto].
      inversion Hin; subst. now rewrite str_eqb_refl in E0.
    + rewrite length_app. simpl. lia.
    + intros x [<-|Hx]; apply in_or_app; simpl; auto.
Qed.

Lemma dict_get_in (V : Type) (k : pystr) (v : V) (d : dict V) :
  NoDup (map fst d) -> (dict_get k d = Some v <-> In (k, v) d).
Proof.
  induction d as [|[k0 v0] d IH]; simpl; intros Hd.
  - split; [discriminate|intros []].
  - inversion Hd as [|? ? Hnot Hd']; subst.
    destruct (str_eqb k0 k) eqn:E.
    + apply str_eqb_eq in E; subst k0. split.
      * intros H; inversion H; auto.
      * intros [H|H]; [inversion H; reflexivity|].
        exfalso. apply Hnot. apply in_map_iff. exists (k, v); auto.
    + rewrite (IH Hd'). split; [auto|].
      intros [H|H]; [|assumption].
      inversion H; subst. now rewrite str_eqb_refl in E.
Qed.

(** The registry of a reachable service holds every name once. *)
Lemma reachable_registry self :
  reachable self -> NoDup (map fst (method_metadata self)).
Proof.
  induction 1 as [|self name func d st pt rt Hr IH|self r Hr IH].
  - constructor.
  - simpl. now apply dict_set_nodup.
  - destruct r as [request random|request elapsed_us|id|id|prefix]; simpl.
    + unfold CreateContext. destruct (ExecutionContext_init _ _); assumption.
    + destruct (InvokeMethod_after self request elapsed_us) as (_ & -> & _).
      assumption.
    + unfold InspectState. destruct (dict_get id (contexts self)); assumption.
    + unfold DestroyContext. destruct (dict_get id (contexts self)); assumption.
    + assumption.
Qed.

(** C8. In every reachable state, [ListMethods] changes nothing and
    logs nothing; it returns the metadata of the registered methods whose
    name starts with the prefix, all of them when the prefix is empty, in
    the order of [method_metadata]; an entry is listed exactly when it is
    the registration of a name with that prefix; and the order is that of
    first registration: registering a new name puts it last, registering a
    name again leaves the order as it was. *)
Theorem ListMethods_lists self prefix :
  reachable self ->
  let h := ListMethods self prefix in
  after h = self
  /\ trace h = []
  /\ reply h = map method_info
                   (filter (fun entry => startswith (fst entry) prefix)
                           (method_metadata self))
  /\ reply (ListMethods self []) = map method_info (method_metadata self)
  /\ (forall m,
        In m (reply h) <->
        exists name md,
          dict_get name (method_metadata self) = Some md
          /\ startswith name prefix = true
          /\ m = method_info (name, md))
  /\ (forall name func description stateful parameter_types return_type,
        let self' := after (register_function self name func description stateful
                                              parameter_types return_type) in
        map mi_name (reply (ListMethods self' []))
        = match dict_get name (method_metadata self) with
          | Some _ => map mi_name (reply (ListMethods self []))
          | None => map mi_name (reply (ListMethods self [])) ++ [name]
          end).
Proof.
  intros Hreach h; subst h. simpl.
  pose proof (reachable_registry Hreach) as Hnd.
  assert (Hall : forall d : dict Metadata, list_loop [] d = map method_info d).
  { intros d. induction d as [|[n md] d IH]; [reflexivity|].
    cbn [list_loop truthy andb map]. now rewrite IH. }
  assert (Hnames : forall d : dict Metadata, map mi_name (map method_info d) = map fst d).
  { intros d. rewrite map_map. reflexivity. }
  repeat split.
  - apply list_loop_filter.
  - apply Hall.
  - rewrite list_loop_filter. intros Hin.
    apply in_map_iff in Hin as [[name md] [Hm Hin]].
    apply filter_In in Hin as [Hin Hp]. simpl in Hp.
    exists name, md. repeat split; auto. now apply dict_get_in.
  - intros (name & md & Hg & Hp & ->). rewrite list_loop_filter.
    apply in_map. apply filter_In. split; [now apply dict_get_in|exact Hp].
  - intros name func description stateful parameter_types return_type.
    rewrite !Hall, !Hnames.
    destruct (dict_get name (method_metadata self)) as [md|] eqn:E.
    + now erewrite dict_set_keys by eassumption.
    + rewrite dict_set_new by assumption. rewrite map_app. reflexivity.
Qed.

(** ** The counter of simple_math *)

Lemma pydict_get_setitem (k : pystr) (v : pyval) (items : list (pyval * pyval)) :
  pydict_get k (pydict_setitem k v items) = Some v.
Proof.
  induction items as [|[key v'] items IH]; simpl.
  - now rewrite str_eqb_refl.
  - destruct (key_is k key) eqn:E; simpl; rewrite E; auto.
Qed.

Lemma same_but_trans id s1 s2 s3 :
  same_but id s1 s2 -> same_but id s2 s3 -> same_but id s1 s3.
Proof.
  intros (A1 & A2 & A3) (B1 & B2 & B3); repeat split; try congruence.
  intros k Hk. now rewrite A3, B3.
Qed.


(** One invocation on a session whose counter reads [n]. *)
Lemma count_once self id exec_context items md n elapsed_us :
  dict_get (lit "counter_increment") (methods self) = Some counter_increment ->
  dict_get (lit "counter_increment") (method_metadata self) = Some md ->
  is_stateful md = true ->
  truthy id = true ->
  dict_get id (contexts self) = Some exec_context ->
  state exec_context = PDict items ->
  counter_reads n items ->
  let h := serve self (count_on id elapsed_us) in
  reply h = Invoked (returned_int (n + 1) elapsed_us)
  /\ after h
     = {| contexts :=
            dict_set id
              {| context_id := context_id exec_context;
                 state := PDict (pydict_setitem (lit "counter") (PInt (n + 1)) items) |}
              (contexts self);
          methods := methods self;
          method_metadata := method_metadata self |}.
Proof.
  intros Hf Hmd Hst Hid Hc Hstate Hn h; subst h.
  unfold serve, count_on, answered, InvokeMethod.
  cbn [method_name req_context_id arguments].
  rewrite Hf. cbn [parse_arguments truthy]. rewrite Hid, Hc, Hmd, Hst.
  unfold invoke_with_session. cbn [kwargs_of str_keys].
  cbn [call_with_session counter_increment].
  unfold counter_increment_body. rewrite Hstate.
  assert (Hcur : match pydict_get (lit "counter") items with
                 | Some v => v
                 | None => PInt 0
                 end = PInt n).
  { destruct Hn as [->|[-> ->]]; reflexivity. }
  rewrite Hcur. cbn [add_one]. unfold update_state. rewrite Hstate.
  unfold respond. cbn [json_dumps after reply trace]. auto.
Qed.

Lemma counting_cons first t ts :
  counting first (t :: ts)
  = Invoked (returned_int (Z.of_nat first) t) :: counting (S first) ts.
Proof. reflexivity. Qed.

Lemma count_many id md ts : forall self exec_context items n,
  dict_get (lit "counter_increment") (methods self) = Some counter_increment ->
  dict_get (lit "counter_increment") (method_metadata self) = Some md ->
  is_stateful md = true ->
  truthy id = true ->
  dict_get id (contexts self) = Some exec_context ->
  state exec_context = PDict items ->
  counter_reads (Z.of_nat n) items ->
  snd (serve_all self (map (count_on id) ts)) = counting (S n) ts.
Proof.
  induction ts as [|t ts IH]; intros self c items n Hf Hmd Hst Hid Hc Hstate Hn.
  - reflexivity.
  - cbn [map serve_all]. rewrite counting_cons.
    destruct (count_once self id t Hf Hmd Hst Hid Hc Hstate Hn) as [Hr Ha].
    rewrite Hr, Ha.
    match goal with
    | |- context [serve_all ?s' _] =>
        pose proof (IH s' {| context_id := context_id c;
                             state := PDict (pydict_setitem (lit "counter")
                                               (PInt (Z.of_nat n + 1)) items) |}
                       (pydict_setitem (lit "counter") (PInt (Z.of_nat n + 1)) items)
                       (S n)) as IH1;
        destruct (serve_all s' (map (count_on id) ts)) as [s'' answers]
    end.
    cbn [fst snd methods method_metadata contexts state] in *.
    rewrite IH1; try assumption; try reflexivity.
    + do 3 f_equal. lia.
    + apply dict_get_set_same.
    + left. rewrite pydict_get_setitem. do 2 f_equal. lia.
Qed.

(** Invocations that name one session leave the others alone. *)
Lemma invocations_same_but id rs : forall self,
  Forall (fun r => exists request elapsed_us,
                     r = Invoke request elapsed_us /\ req_context_id request = id) rs ->
  same_but id (fst (serve_all self rs)) self.
Proof.
  induction rs as [|r rs IH]; intros self Hall; [apply same_but_refl|].
  inversion Hall as [|? ? (request & t & -> & Hid) Hrs]; subst.
  cbn [serve_all]. specialize (IH (after (serve self (Invoke request t))) Hrs).
  destruct (serve_all (after (serve self (Invoke request t))) rs) as [s' answers].
  cbn [fst] in *. eapply same_but_trans; [exact IH|].
  apply InvokeMethod_after.
Qed.

(** C6, as amended. On a reachable service where [counter_increment]
    is registered as a stateful method, [N] invocations in a row against one
    session id, without arguments, succeed and return 1, 2, ..., [N] when the
    session's state is a mapping in which ["counter"] is missing or 0.
    Whatever that session's state, the invocations leave every other session
    as it was, and any later run of requests that do not name this session
    is answered as if they had not been made. *)
Theorem counter_increment_counts self id md elapsed :
  reachable self ->
  dict_get (lit "counter_increment") (methods self) = Some counter_increment ->
  dict_get (lit "counter_increment") (method_metadata self) = Some md ->
  is_stateful md = true ->
  let run := serve_all self (map (count_on id) elapsed) in
  (forall exec_context items,
      dict_get id (contexts self) = Some exec_context ->
      state exec_context = PDict items ->
      pydict_get (lit "counter") items = None
      \/ pydict_get (lit "counter") items = Some (PInt 0) ->
      snd run = counting 1 elapsed)
  /\ (forall id', id' <> id ->
        dict_get id' (contexts (fst run)) = dict_get id' (contexts self))
  /\ (forall rs,
        Forall (fun r => session_of r <> Some id) rs ->
        snd (serve_all (fst run) rs) = snd (serve_all self rs)).
Proof.
  intros Hreach Hf Hmd Hst run; subst run.
  assert (Hsame : same_but id (fst (serve_all self (map (count_on id) elapsed))) self).
  { apply invocations_same_but. apply Forall_forall. intros r Hr.
    apply in_map_iff in Hr as (t & <- & _). unfold count_on. eauto. }
  split; [|split].
  - intros exec_context items Hc Hstate Hn.
    assert (Hid : truthy id = true) by (eapply reachable_ids; eauto).
    apply (@count_many id md elapsed self exec_context items 0); auto.
    destruct Hn as [Hn|Hn]; [right|left]; auto.
  - apply Hsame.
  - intros rs Hrs. now apply (serve_all_same_but Hsame).
Qed.

(** Serving a request leaves the registry as it is. *)
Lemma serve_registry self r :
  methods (after (serve self r)) = methods self
  /\ method_metadata (after (serve self r)) = method_metadata self.
Proof.
  destruct r as [request random|request elapsed_us|id|id|prefix]; simpl.
  - unfold CreateContext. destruct (ExecutionContext_init _ _); auto.
  - destruct (InvokeMethod_after self request elapsed_us) as (H1 & H2 & _). auto.
  - unfold InspectState. destruct (dict_get id (contexts self)); auto.
  - unfold DestroyContext. destruct (dict_get id (contexts self)); auto.
  - auto.
Qed.

(** In a reachable service a registered method has its metadata: the lookup
    [self.method_metadata[request.method_name]] of [InvokeMethod] cannot
    fail. *)
Lemma reachable_metadata self name :
  reachable self ->
  dict_get name (methods self) <> None ->
  dict_get name (method_metadata self) <> None.
Proof.
  induction 1 as [|self n func d st pt rt Hr IH|self r Hr IH].
  - intros H; now contradiction H.
  - simpl. destruct (list_eq_dec N.eq_dec n name) as [->|Hne].
    + rewrite !dict_get_set_same. discriminate.
    + rewrite !dict_get_set_other by assumption. exact IH.
  - destruct (serve_registry self r) as [-> ->]. exact IH.
Qed.

(** ** The decoder never runs out of fuel *)

Lemma skip_ws_length (s : pystr) : length (skip_ws s) <= length s.
Proof.
  induction s as [|c s IH]; cbn [skip_ws length]; [lia|].
  destruct (is_ws c); cbn [length]; lia.
Qed.

Lemma span_digits_length (s : pystr) : length (snd (span_digits s)) <= length s.
Proof.
  induction s as [|c s IH]; cbn [span_digits]; [cbn; lia|].
  destruct (is_digit c); [|cbn; lia].
  destruct (span_digits s) as [ds rest]. cbn [snd length] in *. lia.
Qed.

Lemma match_int_shorter (s ds r : pystr) :
  match_int s = Some (ds, r) -> length r < length s.
Proof.
  destruct s as [|c s]; [discriminate|]. cbn [match_int].
  destruct (c =? 48)%N.
  - intros H; inversion H; subst. cbn; lia.
  - destruct (is_digit c); [|discriminate].
    pose proof (span_digits_length s) as Hs.
    destruct (span_digits s) as [ds' rest]. intros H; inversion H; subst.
    cbn [snd length] in *. lia.
Qed.

Lemma match_frac_length (s : pystr) : length (snd (match_frac s)) <= length s.
Proof.
  destruct s as [|p [|d r]]; cbn [match_frac snd]; try lia.
  destruct ((p =? 46)%N && is_digit d); [|cbn [snd]; lia].
  pose proof (span_digits_length r) as Hs.
  destruct (span_digits r) as [ds rest]. cbn [snd length] in *. lia.
Qed.

Lemma match_exp_length (s : pystr) : length (snd (match_exp s)) <= length s.
Proof.
  destruct s as [|e r]; cbn [match_exp snd]; [lia|].
  destruct ((e =? 101)%N || (e =? 69)%N); [|cbn [snd]; lia].
  assert (Hsign : forall sign r1,
            length r1 <= length r ->
            length (snd (let (ds, rest) := span_digits r1 in
                         match ds with
                         | [] => ([], e :: r)
                         | _ :: _ => (e :: sign ++ ds, rest)
                         end)) <= length (e :: r)).
  { intros sign r1 Hr1. pose proof (span_digits_length r1) as Hs.
    destruct (span_digits r1) as [[|d ds] rest]; cbn [snd length] in *; lia. }
  destruct r as [|c r']; [apply Hsign; lia|].
  destruct ((c =? 45)%N || (c =? 43)%N); apply Hsign; cbn [length]; lia.
Qed.

Lemma match_number_shorter (s : pystr) (v : pyval) (r : pystr) :
  match_number s = Some (v, r) -> length r < length s.
Proof.
  unfold match_number.
  assert (Hrest : forall s0,
            length s0 <= length s ->
            match match_int s0 with
            | Some (ds, r1) =>
                let (frac, r2) := match_frac r1 in
                let (ex, r3) := match_exp r2 in
                length r3 < length s
            | None => True
            end).
  { intros s0 Hs0. destruct (match_int s0) as [[ds r1]|] eqn:E; [|trivial].
    apply match_int_shorter in E.
    pose proof (match_frac_length r1) as Hf. destruct (match_frac r1) as [frac r2].
    pose proof (match_exp_length r2) as He. destruct (match_exp r2) as [ex r3].
    cbn [snd] in *. lia. }
  destruct s as [|c s'].
  - cbn. discriminate.
  - destruct (c =? 45)%N.
    + specialize (Hrest s' ltac:(cbn; lia)).
      destruct (match_int s') as [[ds r1]|]; [|discriminate].
      destruct (match_frac r1) as [frac r2], (match_exp r2) as [ex r3].
      destruct (frac ++ ex); intros H; inversion H; subst; assumption.
    + specialize (Hrest (c :: s') ltac:(lia)).
      destruct (match_int (c :: s')) as [[ds r1]|]; [|discriminate].
      destruct (match_frac r1) as [frac r2], (match_exp r2) as [ex r3].
      destruct (frac ++ ex); intros H; inversion H; subst; assumption.
Qed.

Lemma consumed_map {A B : Type} (f : A -> B) (s : pystr) (x : scan A) :
  consumed s x -> consumed s (scan_map f x).
Proof. destruct x; auto. Qed.

Lemma consumed_longer {A : Type} (s s' : pystr) (x : scan A) :
  consumed s' x -> length s' <= length s -> consumed s x.
Proof. destruct x; cbn [consumed]; auto; lia. Qed.

Lemma scanstring_consumed (n : nat) : forall s start,
  length s <= n -> consumed s (scanstring start s).
Proof.
  induction n as [|n IH]; intros s start Hn.
  - destruct s; [exact I|cbn in Hn; lia].
  - destruct s as [|c s1]; [exact I|]. cbn [length] in Hn.
    assert (Hrec : forall x s', length s' <= n -> length s' <= length (c :: s1) ->
                     consumed (c :: s1) (scan_map (cons x) (scanstring start s'))).
    { intros x s' Hs' Hle. apply consumed_map.
      apply consumed_longer with s'; [now apply IH|assumption]. }
    cbn [scanstring].
    destruct (c =? 34)%N; [cbn; lia|].
    destruct (c =? 92)%N.
    + destruct s1 as [|esc r1]; [exact I|].
      destruct (esc =? 117)%N.
      * destruct r1 as [|a [|b [|c1 [|d [|x r2]]]]]; try exact I.
        destruct (hex4_value a b c1 d) as [uni|]; [|exact I].
        assert (Hplain : consumed (c :: esc :: a :: b :: c1 :: d :: x :: r2)
                           (scan_map (cons uni) (scanstring start (x :: r2)))).
        { apply Hrec; cbn [length] in *; lia. }
        destruct (high_surrogate uni); [|exact Hplain].
        destruct r2 as [|f [|a2 [|b2 [|c2 [|d2 [|y r4]]]]]]; try exact Hplain.
        destruct ((x =? 92)%N && (f =? 117)%N); [|exact Hplain].
        destruct (hex4_value a2 b2 c2 d2) as [uni2|]; [|exact I].
        destruct (low_surrogate uni2); [|exact Hplain].
        apply Hrec; cbn [length] in *; lia.
      * destruct (backslash esc); [|exact I].
        apply Hrec; cbn [length] in *; lia.
    + destruct (c <=? 31)%N; [exact I|].
      apply Hrec; cbn [length] in *; lia.
Qed.

Lemma consumed_skipn {A : Type} (v : A) (n : nat) (s : pystr) :
  0 < n -> s <> [] -> consumed s (ScanOk v (skipn n s)).
Proof.
  intros Hn Hs. cbn [consumed]. rewrite length_skipn.
  destruct s; [contradiction|cbn [length]; lia].
Qed.

(** With twice the length of the input as fuel, and one more, no scan of
    the decoder runs out. *)
Lemma scan_consumed (fuel : nat) :
  (forall s, 2 * length s < fuel -> consumed s (scan_once fuel s))
  /\ (forall s, 2 * length s + 1 < fuel -> consumed (0%N :: s) (array_items fuel s))
  /\ (forall start s, 2 * length s + 1 < fuel ->
        consumed (0%N :: s) (object_members fuel start s)).
Proof.
  induction fuel as [|k (IH1 & IH2 & IH3)].
  - repeat split; intros; lia.
  - split; [|split].
    + intros s Hs. destruct s as [|c r]; [exact I|].
      cbn [length] in Hs. cbn [scan_once].
      pose proof (skip_ws_length r) as Hws.
      destruct (c =? 34)%N.
      { apply consumed_map.
        apply consumed_longer with r; [now apply scanstring_consumed with (length r)|].
        cbn [length]; lia. }
      destruct (c =? 123)%N.
      { destruct (skip_ws r) as [|q r2]; [exact I|]. cbn [length] in Hws.
        destruct (q =? 125)%N; [cbn [consumed length]; lia|].
        destruct (q =? 34)%N; [|exact I].
        apply consumed_map.
        apply consumed_longer with (0%N :: r2); [apply IH3; lia|cbn [length]; lia]. }
      destruct (c =? 91)%N.
      { assert (Hitems : consumed (c :: r) (scan_map PList (array_items k (skip_ws r)))).
        { apply consumed_map.
          apply consumed_longer with (0%N :: skip_ws r); [apply IH2; lia|cbn [length]; lia]. }
        destruct (skip_ws r) as [|q r2] eqn:E; [exact Hitems|]. cbn [length] in Hws.
        destruct (q =? 93)%N; [cbn [consumed length]; lia|exact Hitems]. }
      destruct (startswith (c :: r) (lit "null")); [apply consumed_skipn; [lia|discriminate]|].
      destruct (startswith (c :: r) (lit "true")); [apply consumed_skipn; [lia|discriminate]|].
      destruct (startswith (c :: r) (lit "false")); [apply consumed_skipn; [lia|discriminate]|].
      destruct (match_number (c :: r)) as [[v rest]|] eqn:E.
      { apply match_number_shorter in E. exact E. }
      destruct (startswith (c :: r) (lit "NaN")); [apply consumed_skipn; [lia|discriminate]|].
      destruct (startswith (c :: r) (lit "Infinity")); [apply consumed_skipn; [lia|discriminate]|].
      destruct (startswith (c :: r) (lit "-Infinity")); [apply consumed_skipn; [lia|discriminate]|].
      exact I.
    + intros s Hs. cbn [array_items].
      specialize (IH1 s ltac:(lia)).
      destruct (scan_once k s) as [v r|m p|]; [|exact I|exact IH1].
      cbn [consumed] in IH1.
      pose proof (skip_ws_length r) as Hws.
      destruct (skip_ws r) as [|c r2]; [exact I|]. cbn [length] in Hws.
      destruct (c =? 93)%N; [cbn [consumed length]; lia|].
      destruct (c =? 44)%N; [|exact I].
      apply consumed_map.
      pose proof (skip_ws_length r2) as Hws2.
      apply consumed_longer with (0%N :: skip_ws r2); [apply IH2; lia|cbn [length]; lia].
    + intros start s Hs. cbn [object_members].
      pose proof (@scanstring_consumed (length s) s start (le_n _)) as Hkey.
      destruct (scanstring start s) as [key r|m p|]; [|exact I|exact Hkey].
      cbn [consumed] in Hkey.
      pose proof (skip_ws_length r) as Hws.
      destruct (skip_ws r) as [|c r2]; [exact I|]. cbn [length] in Hws.
      destruct (c =? 58)%N; [|exact I].
      pose proof (skip_ws_length r2) as Hws2.
      specialize (IH1 (skip_ws r2) ltac:(lia)).
      destruct (scan_once k (skip_ws r2)) as [v r3|m p|]; [|exact I|exact IH1].
      cbn [consumed] in IH1.
      pose proof (skip_ws_length r3) as Hws3.
      destruct (skip_ws r3) as [|d r5]; [exact I|]. cbn [length] in Hws3.
      destruct (d =? 125)%N; [cbn [consumed length]; lia|].
      destruct (d =? 44)%N; [|exact I].
      pose proof (skip_ws_length r5) as Hws5.
      destruct (skip_ws r5) as [|q r7]; [exact I|]. cbn [length] in Hws5.
      destruct (q =? 34)%N; [|exact I].
      apply consumed_map.
      apply consumed_longer with (0%N :: r7); [apply IH3; lia|cbn [length]; lia].
Qed.

(** [json_loads] gives the decoder enough fuel: its answer is the value
    read or the error found, never the mark of an exhausted scan. *)
Lemma json_loads_fuel (s : pystr) :
  scan_once (S (2 * length s)) (skip_ws s) <> ScanFuel.
Proof.
  pose proof (skip_ws_length s) as Hws.
  destruct (scan_consumed (S (2 * length s))) as (H & _).
  specialize (H (skip_ws s) ltac:(lia)).
  intros E. rewrite E in H. exact H.
Qed.

(** ** The encoding round trip: numerals *)
















(** ** The encoding round trip: strings *)


















(** ** The encoding round trip: values *)






(** *** Lists *)








(** *** Dictionaries *)










(** ** The fallback of the encoder *)








End Properties.

(** * The properties at work on [demo] *)

#[local] Existing Instance no_floats.

(** C1 on [demo]: an unknown method, a broken payload and an unknown session
    in one request; the method is what the reply is about. *)
Lemma InvokeMethod_unregistered_demo :
  let request := {| method_name := lit "no_such_method";
                    req_context_id := lit "no-such-session";
                    arguments := lit "{" |} in
  dict_get (method_name request) (methods demo) = None
  /\ InvokeMethod demo request 3
     = {| after := demo;
          reply := {| success := false; result := [];
                      error := lit "Method not found: no_such_method";
                      metadata := None |};
          trace := [] |}.
Proof.
  split; [reflexivity|].
  apply (InvokeMethod_unregistered (FM := no_floats)). reflexivity.
Defined.







Lemma demo_reachable : reachable demo.
Proof. unfold demo. apply reach_register, reach_init. Qed.

Lemma demo_session_reachable : reachable demo_session.
Proof. unfold demo_session. apply reach_serve, demo_reachable. Qed.

(** C6 on [demo_session]: three invocations in a row. *)
Lemma counter_increment_counts_demo :
  snd (serve_all demo_session (map (count_on zero_id) [5; 7; 9]%Z))
  = [Invoked (returned_int 1 5); Invoked (returned_int 2 7); Invoked (returned_int 3 9)].
Proof.
  destruct (counter_increment_counts (FM := no_floats) zero_id
              (md := {| description := lit "Increment a counter (stateful)";
                        is_stateful := true; parameter_types := [];
                        return_type := lit "int" |})
              [5; 7; 9]%Z demo_session_reachable eq_refl eq_refl eq_refl)
    as (H & _).
  apply (H {| context_id := zero_id; state := PDict [] |} []); auto.
Defined.

(** The claim C6 as stated fails on a session seeded with a counter: the
    first invocation returns 6, not 1. *)
Lemma counter_increment_seeded :
  let seeded := after (CreateContext demo {| initial_state := counter_at_5 |} 0) in
  json_loads counter_at_5 = inr (PDict [(PStr (lit "counter"), PInt 5)])
  /\ snd (serve_all seeded [count_on zero_id 1]) = [Invoked (returned_int 6 1)]
  /\ returned_int 6 1 <> returned_int 1 1.
Proof. repeat split. discriminate. Qed.



(** C8 on [demo]: a prefix that matches and one that does not. *)
Lemma ListMethods_lists_demo :
  reply (ListMethods demo (lit "counter"))
    = [{| mi_name := lit "counter_increment";
          mi_description := lit "Increment a counter (stateful)";
          mi_is_stateful := true;
          mi_parameter_types := [];
          mi_return_type := lit "int" |}]
  /\ reply (ListMethods demo (lit "add")) = []
  /\ after (ListMethods demo (lit "counter")) = demo.
Proof.
  destruct (ListMethods_lists (FM := no_floats) (lit "counter") demo_reachable)
    as (H1 & _ & H2 & _).
  destruct (ListMethods_lists (FM := no_floats) (lit "add") demo_reachable)
    as (_ & _ & H3 & _).
  split; [exact H2|]. split; [exact H3|exact H1].
Defined.

